(** * scriptworker.task: a shallow embedding of the task-execution core

    The Python module [scriptworker/task.py] is a set of asyncio coroutines
    that share one mutable [context] object.  Each coroutine is embedded as a
    function in a small state-and-exception monad.  Everything the module
    does not define itself (the operating system, the event loop, the
    taskcluster queue, the HTTP session, the file system) is an interface
    whose answers are supplied by an environment; every call that crosses
    such an interface is appended to a log, so that the order of calls can
    be stated.  The two [while True] loops take a bound on the number of
    iterations that are observed; a run that is still looping when the bound
    is reached has outcome [Pending].  Calls to [log.debug] and [log.info]
    are left out. *)

From Stdlib Require Import ZArith List String Ascii Bool Arith Lia Permutation.
Import ListNotations.

Set Implicit Arguments.

(** ** Exceptions and outcomes *)

(** The [OSError] family, as far as the module can meet it. *)
Inductive OSErrorKind :=
| ProcessLookupError
| PermissionError
| FileNotFoundError
| IsADirectoryError.

Inductive Exc :=
| AttributeError
| OSError (k : OSErrorKind)
| TaskclusterRestFailure (status_code : Z)
| ScriptWorkerRetryException (status : Z)
| TimeoutError
| ValueError
| OtherException (name : string).

(** What is known of a coroutine after a bounded observation. *)
Inductive Outcome (A : Type) :=
| Returned (a : A)
| Raised (e : Exc)
| Pending.

Arguments Raised {A} e.
Arguments Pending {A}.

(** ** The monad *)

Definition M (S A : Type) : Type := S -> Outcome A * S.

Definition ret {S A} (a : A) : M S A := fun s => (Returned a, s).

Definition raise {S A} (e : Exc) : M S A := fun s => (Raised e, s).

Definition pending {S A} : M S A := fun s => (Pending, s).

Definition bind {S A B} (m : M S A) (k : A -> M S B) : M S B :=
  fun s =>
    match m s with
    | (Returned a, s') => k a s'
    | (Raised e, s') => (Raised e, s')
    | (Pending, s') => (Pending, s')
    end.

(** [try: m  except <handles> as e: h e]: an exception that [handles]
    selects is replaced by the handler, any other one passes through. *)
Definition try_except {S A} (m : M S A) (handles : Exc -> bool)
    (h : Exc -> M S A) : M S A :=
  fun s =>
    match m s with
    | (Raised e, s') => if handles e then h e s' else (Raised e, s')
    | r => r
    end.

Declare Scope task_scope.
Delimit Scope task_scope with task.
Notation "x <- m ;; k" := (bind m (fun x => k))
  (at level 61, m at next level, right associativity) : task_scope.
Notation "m ;; k" := (bind m (fun _ => k))
  (at level 61, right associativity) : task_scope.
Open Scope task_scope.
Open Scope Z_scope.

(** ** The job context *)

(** An [asyncio.subprocess.Process]; [handle] stands for the identity of
    the Python object. *)
Record Process := { handle : nat; pid : Z }.

Record Config := {
  task_script : list string;
  task_max_timeout : Z;
  reclaim_interval : Z;
  artifact_dir : string;
  artifact_upload_timeout : Z;
  artifact_expiration_hours : Z
}.

(** [context.task]: only ['status']['taskId'] and ['runId'] are read. *)
Record ClaimedTask := { taskId : string; runId : Z }.

Record Credentials := { clientId : string; accessToken : string }.

(** The body of a successful [reclaimTask] answer. *)
Record ReclaimResult := { credentials : Credentials; takenUntil : string }.

Module Context.

Record t := mk {
  config : Config;
  task : ClaimedTask;
  proc : option Process;
  temp_credentials : Credentials;
  reclaim_task : option ReclaimResult
}.

Definition set_proc (p : option Process) (c : t) : t :=
  mk (config c) (task c) p (temp_credentials c) (reclaim_task c).

(** Modelled from the spec: the class of [context] is not among the
    sources.  Assigning [context.reclaim_task = result] keeps the answer
    and replaces the lease credentials by the fresh ones it carries. *)
Definition set_reclaim_task (r : ReclaimResult) (c : t) : t :=
  mk (config c) (task c) (proc c) (credentials r) (Some r).

End Context.

(** [proc != context.proc] compares object identities; [None] is only
    identical to [None]. *)
Definition same_object (a b : option Process) : bool :=
  match a, b with
  | None, None => true
  | Some x, Some y => Nat.eqb (handle x) (handle y)
  | _, _ => false
  end.

(** The state a coroutine runs in: the shared context, the world behind
    the interfaces, and the log of the calls made so far. *)
Record St (W E : Type) := mkSt {
  ctx : Context.t;
  world : W;
  log : list E
}.

Definition get_ctx {W E} : M (St W E) Context.t :=
  fun s => (Returned (ctx s), s).

Definition emit {W E} (e : E) : M (St W E) unit :=
  fun s => (Returned tt, mkSt (ctx s) (world s) (log s ++ [e])).

(** [get_temp_queue]: a queue client built from the latest temporary
    credentials. *)
Record Queue := { queue_credentials : Credentials }.

Definition get_temp_queue (c : Context.t) : Queue :=
  {| queue_credentials := Context.temp_credentials c |}.

(** ** Process supervision: [run_task] and [max_timeout] *)

Module Supervisor.

Definition SIGINT : Z := 2.
Definition SIGKILL : Z := 9.
Definition SIGTERM : Z := 15.

Inductive Event :=
| EvSpawn (argv : list string) (p : Process)
| EvSleep (d : Z)
| EvKill (target sig : Z) (r : option OSErrorKind)
| EvOpenLogs
| EvLogErrors (p : Process)
| EvReadStdout (p : Process)
| EvAwaitCapture
| EvProcWait (p : Process) (exitcode : Z)
| EvStatusLine (exitcode : Z)
| EvCloseLogs.

(** What [run_task] and [max_timeout] ask of their surroundings.
    [suspend d] is everything that happens while the coroutine is
    suspended in [asyncio.sleep(d)]: the operating system moves on and the
    other coroutines of the loop may write to the shared context.  The
    other awaits of [run_task] (the spawn, the wait for the capture
    coroutines, the wait for the exit) only move the world.  [os_kill]
    answers [None] where [os.kill] returns and the error where it raises.
    [get_log_fhs] and [capture] (the coroutines [log_errors] and
    [read_stdout] run to the end of both streams) belong to
    [scriptworker.log]. *)
Class Env (W : Type) := {
  create_subprocess_exec : list string -> W -> (Exc + Process) * W;
  os_kill : Z -> Z -> W -> option OSErrorKind * W;
  suspend : Z -> Context.t * W -> Context.t * W;
  get_log_fhs : W -> option Exc * W;
  capture : Process -> W -> W;
  proc_wait : Process -> W -> Z * W
}.

Section WithEnv.

Context {W : Type} {env : Env W}.

Definition set_context_proc (p : option Process) : M (St W Event) unit :=
  fun s => (Returned tt, mkSt (Context.set_proc p (ctx s)) (world s) (log s)).

(** [await asyncio.sleep(d)] *)
Definition sleep (d : Z) : M (St W Event) unit :=
  fun s =>
    let '(c, w) := suspend d (ctx s, world s) in
    (Returned tt, mkSt c w (log s ++ [EvSleep d])).

(** [os.kill(target, sig)] *)
Definition kill (target sig : Z) : M (St W Event) unit :=
  fun s =>
    let '(r, w) := os_kill target sig (world s) in
    let s' := mkSt (ctx s) w (log s ++ [EvKill target sig r]) in
    match r with
    | None => (Returned tt, s')
    | Some k => (Raised (OSError k), s')
    end.

(** [x.pid] where [x] may be [None] *)
Definition attr_pid (x : option Process) : M (St W Event) Z :=
  match x with
  | Some p => ret (pid p)
  | None => raise AttributeError
  end.

(** The [while True] loop of [max_timeout], observed for at most [fuel]
    iterations. *)
Fixpoint escalate (fuel : nat) (pid : Z) (siglist : list Z) : M (St W Event) unit :=
  match fuel with
  | O => pending
  | S fuel' =>
      let sig := hd SIGKILL siglist in
      let siglist' := tl siglist in
      kill (- pid) sig ;;
      kill pid sig ;;
      sleep 1 ;;
      kill pid 0 ;;
      escalate fuel' pid siglist'
  end.

Definition caught_by_max_timeout (e : Exc) : bool :=
  match e with
  | AttributeError | OSError _ => true
  | _ => false
  end.

Definition max_timeout (fuel : nat) (proc : option Process) (timeout : Z)
  : M (St W Event) unit :=
  sleep timeout ;;
  c <- get_ctx ;;
  if negb (same_object proc (Context.proc c)) then ret tt
  else
    try_except
      (pid <- attr_pid (Context.proc c) ;;
       escalate fuel pid [SIGINT; SIGTERM])
      caught_by_max_timeout
      (fun _ => ret tt).

Definition spawn (argv : list string) : M (St W Event) Process :=
  fun s =>
    let '(r, w) := create_subprocess_exec argv (world s) in
    match r with
    | inl e => (Raised e, mkSt (ctx s) w (log s))
    | inr p => (Returned p, mkSt (ctx s) w (log s ++ [EvSpawn argv p]))
    end.

Definition open_logs : M (St W Event) unit :=
  fun s =>
    let '(r, w) := get_log_fhs (world s) in
    match r with
    | Some e => (Raised e, mkSt (ctx s) w (log s))
    | None => (Returned tt, mkSt (ctx s) w (log s ++ [EvOpenLogs]))
    end.

(** [x.stderr], [x.stdout], [x.wait] where [x] may be [None] *)
Definition attr_of (x : option Process) : M (St W Event) Process :=
  match x with
  | Some p => ret p
  | None => raise AttributeError
  end.

(** [await asyncio.wait(tasks)] over the two capture coroutines *)
Definition await_capture (p : Process) : M (St W Event) unit :=
  fun s =>
    (Returned tt, mkSt (ctx s) (capture p (world s)) (log s ++ [EvAwaitCapture])).

(** [await context.proc.wait()] *)
Definition wait_exit (p : Process) : M (St W Event) Z :=
  fun s =>
    let '(code, w) := proc_wait p (world s) in
    (Returned code, mkSt (ctx s) w (log s ++ [EvProcWait p code])).

(** [with get_log_fhs(context) as ...: body]; leaving the block, by its end
    or by an exception, closes the log files. *)
Definition with_logs {A} (body : M (St W Event) A) : M (St W Event) A :=
  open_logs ;;
  fun s =>
    match body s with
    | (Pending, s') => (Pending, s')
    | (o, s') => (o, mkSt (ctx s') (world s') (log s' ++ [EvCloseLogs]))
    end.

Definition run_task (fuel : nat) : M (St W Event) Z :=
  c <- get_ctx ;;
  p <- spawn (task_script (Context.config c)) ;;
  set_context_proc (Some p) ;;
  c <- get_ctx ;;
  max_timeout fuel (Context.proc c) (task_max_timeout (Context.config c)) ;;
  exitcode <-
    with_logs
      (c <- get_ctx ;;
       pe <- attr_of (Context.proc c) ;;
       emit (EvLogErrors pe) ;;
       c <- get_ctx ;;
       po <- attr_of (Context.proc c) ;;
       emit (EvReadStdout po) ;;
       await_capture po ;;
       c <- get_ctx ;;
       pw <- attr_of (Context.proc c) ;;
       exitcode <- wait_exit pw ;;
       emit (EvStatusLine exitcode) ;;
       ret exitcode) ;;
  set_context_proc None ;;
  ret exitcode.

(** The state in which a coroutine wakes up from [asyncio.sleep(d)]. *)
Definition woken (d : Z) (s : St W Event) : St W Event := snd (sleep d s).

(** A computation that only ever adds to the log. *)
Definition extends {A} (m : M (St W Event) A) : Prop :=
  forall s, exists tl, log (snd (m s)) = log s ++ tl.

(** What the handler of [max_timeout] makes of the loop's raw outcome. *)
Definition handled (o : Outcome unit) : Outcome unit :=
  match o with
  | Raised e => if caught_by_max_timeout e then Returned tt else o
  | _ => o
  end.

End WithEnv.

(** Seconds spent in [asyncio.sleep] along a log; a delay of zero or less
    returns at once. *)
Definition elapsed (tr : list Event) : Z :=
  fold_right (fun e acc => match e with EvSleep d => Z.max 0 d + acc | _ => acc end) 0 tr.

(** The calls that touch the output streams of the child. *)
Definition is_capture (e : Event) : bool :=
  match e with
  | EvLogErrors _ | EvReadStdout _ | EvAwaitCapture => true
  | _ => false
  end.

Definition is_kill (e : Event) : bool :=
  match e with
  | EvKill _ _ _ => true
  | _ => false
  end.

(** The signal of the [k]-th round of the escalation, counted from 0. *)
Definition escalation_signal (k : nat) : Z :=
  nth k [SIGINT; SIGTERM] SIGKILL.

(** The escalation as the specification words it, from round [k] on: each
    round signals the process group and the leader, waits one second and
    probes the leader with signal 0; the first refused call ends the loop
    with a normal return; [Pending] is a loop cut short by the observer. *)
Inductive escalation (pid : Z) : nat -> list Event -> Outcome unit -> Prop :=
| esc_group_gone k e :
    escalation pid k [EvKill (- pid) (escalation_signal k) (Some e)] (Returned tt)
| esc_leader_gone k e :
    escalation pid k
      [EvKill (- pid) (escalation_signal k) None;
       EvKill pid (escalation_signal k) (Some e)] (Returned tt)
| esc_probe_gone k e :
    escalation pid k
      [EvKill (- pid) (escalation_signal k) None;
       EvKill pid (escalation_signal k) None;
       EvSleep 1;
       EvKill pid 0 (Some e)] (Returned tt)
| esc_alive k tr o :
    escalation pid (S k) tr o ->
    escalation pid k
      (EvKill (- pid) (escalation_signal k) None
       :: EvKill pid (escalation_signal k) None
       :: EvSleep 1
       :: EvKill pid 0 None
       :: tr) o
| esc_cut k :
    escalation pid k [] Pending.

(** The kill calls of a log that the operating system accepted. *)
Definition accepted_kills (tr : list Event) : nat :=
  List.length (filter (fun e => match e with EvKill _ _ None => true | _ => false end) tr).

End Supervisor.

(** A small operating system with one child, to run the supervisor on. *)
Module Sim.

Record World := {
  now : Z;
  child : Z;
  exit_time : option Z;
  killed_by : option Z;
  reap_delay : Z;
  ignored : list Z;
  writes_proc : option (option Process);
  delivered : list (Z * Z)
}.

(** The child has a process table entry until it is reaped, [reap_delay]
    seconds after its exit. *)
Definition in_table (w : World) : bool :=
  match exit_time w with
  | None => true
  | Some t => now w <? t + reap_delay w
  end.

Definition running (w : World) : bool :=
  match exit_time w with
  | None => true
  | Some t => now w <? t
  end.

Definition mem (x : Z) (l : list Z) : bool := existsb (Z.eqb x) l.

Definition sim_kill (target sig : Z) (w : World) : option OSErrorKind * World :=
  if negb (Z.eqb target (child w) || Z.eqb target (- child w)) then
    (Some ProcessLookupError, w)
  else if negb (in_table w) then (Some ProcessLookupError, w)
  else
    let dies := running w && negb (Z.eqb sig 0) && negb (mem sig (ignored w)) in
    (None,
     {| now := now w; child := child w;
        exit_time := if dies then Some (now w) else exit_time w;
        killed_by := if dies then Some sig else killed_by w;
        reap_delay := reap_delay w; ignored := ignored w;
        writes_proc := writes_proc w;
        delivered := delivered w ++ [(target, sig)] |}).

(** While the coroutine sleeps the clock advances, and another coroutine
    may assign [context.proc] once. *)
Definition sim_suspend (d : Z) (cw : Context.t * World) : Context.t * World :=
  let '(c, w) := cw in
  (match writes_proc w with
   | Some p => Context.set_proc p c
   | None => c
   end,
   {| now := now w + Z.max 0 d; child := child w;
      exit_time := exit_time w; killed_by := killed_by w;
      reap_delay := reap_delay w; ignored := ignored w;
      writes_proc := None;
      delivered := delivered w |}).

Definition sim_wait (p : Process) (w : World) : Z * World :=
  (match killed_by w with Some sg => - sg | None => 0 end, w).

#[global] Instance sim_env : Supervisor.Env World := {|
  Supervisor.create_subprocess_exec argv w := (inr {| handle := 1; pid := child w |}, w);
  Supervisor.os_kill := sim_kill;
  Supervisor.suspend := sim_suspend;
  Supervisor.get_log_fhs w := (None, w);
  Supervisor.capture p w := w;
  Supervisor.proc_wait := sim_wait
|}.

Definition config (T : Z) : Config :=
  {| task_script := ["./task.sh"%string]; task_max_timeout := T;
     reclaim_interval := 300; artifact_dir := "artifacts"%string;
     artifact_upload_timeout := 1200; artifact_expiration_hours := 24 |}.

Definition context (T : Z) (p : option Process) : Context.t :=
  Context.mk (config T) {| taskId := "task-0"%string; runId := 0 |} p
    {| clientId := "worker"%string; accessToken := "t0"%string |} None.

Definition start (T : Z) (p : option Process) (w : World)
  : St World Supervisor.Event :=
  mkSt (context T p) w [].

(** A child that exits on its own at [t] and is reaped [r] seconds later. *)
Definition exits_at (t r : Z) : World :=
  {| now := 0; child := 4242; exit_time := Some t; killed_by := None;
     reap_delay := r; ignored := []; writes_proc := None; delivered := [] |}.


(** A world in which another coroutine assigns [p] to [context.proc] during
    the next sleep. *)
Definition reassigning (p : option Process) : World :=
  {| now := 0; child := 4242; exit_time := None; killed_by := None;
     reap_delay := 0; ignored := []; writes_proc := Some p; delivered := [] |}.

End Sim.

(** ** Lease renewal: [reclaim_task] *)

Module LeaseKeeper.

Inductive Event :=
| EvSleep (d : Z)
| EvReclaimTask (q : Queue) (taskId : string) (runId : Z) (reply : Exc + ReclaimResult).

(** The queue's [reclaimTask] and the passing of time.  No other coroutine
    of the module writes a field of the context that the loop reads, so
    here a sleep only moves the world. *)
Class Env (W : Type) := {
  reclaimTask : Queue -> string -> Z -> W -> (Exc + ReclaimResult) * W;
  suspend : Z -> W -> W
}.

Section WithEnv.

Context {W : Type} {env : Env W}.

(** [await asyncio.sleep(d)] *)
Definition sleep (d : Z) : M (St W Event) unit :=
  fun s => (Returned tt, mkSt (ctx s) (suspend d (world s)) (log s ++ [EvSleep d])).

(** [await temp_queue.reclaimTask(taskId, runId)] *)
Definition queue_reclaimTask (q : Queue) (tid : string) (rid : Z)
  : M (St W Event) ReclaimResult :=
  fun s =>
    let '(r, w) := reclaimTask q tid rid (world s) in
    let s' := mkSt (ctx s) w (log s ++ [EvReclaimTask q tid rid r]) in
    match r with
    | inr result => (Returned result, s')
    | inl e => (Raised e, s')
    end.

(** [context.reclaim_task = result] *)
Definition set_context_reclaim_task (r : ReclaimResult) : M (St W Event) unit :=
  fun s => (Returned tt, mkSt (Context.set_reclaim_task r (ctx s)) (world s) (log s)).

Definition is_TaskclusterRestFailure (e : Exc) : bool :=
  match e with
  | TaskclusterRestFailure _ => true
  | _ => false
  end.

(** The body of [except TaskclusterRestFailure as exc]: [false] is the
    [break]. *)
Definition on_reclaim_failure (exc : Exc) : M (St W Event) bool :=
  match exc with
  | TaskclusterRestFailure status_code =>
      if status_code =? 409 then ret false else raise exc
  | _ => raise exc
  end.

(** The [while True] loop, observed for at most [fuel] iterations. *)
Fixpoint reclaim_task (fuel : nat) : M (St W Event) unit :=
  match fuel with
  | O => pending
  | S fuel' =>
      c <- get_ctx ;;
      sleep (reclaim_interval (Context.config c)) ;;
      c <- get_ctx ;;
      let temp_queue := get_temp_queue c in
      let tid := taskId (Context.task c) in
      let rid := runId (Context.task c) in
      again <-
        try_except
          (result <- queue_reclaimTask temp_queue tid rid ;;
           set_context_reclaim_task result ;;
           ret true)
          is_TaskclusterRestFailure
          on_reclaim_failure ;;
      if again then reclaim_task fuel' else ret tt
  end.

End WithEnv.

(** The loop as the specification words it, for a job [tid]/[rid] renewed
    every [interval] seconds: each round sleeps and then asks once; a
    renewal that succeeds is followed by the next round; a conflict ends
    the loop with a normal return, any other failure ends it with that
    failure; [Pending] is a loop cut short by the observer. *)
Inductive renewals (interval : Z) (tid : string) (rid : Z)
  : list Event -> Outcome unit -> Prop :=
| ren_conflict q :
    renewals interval tid rid
      [EvSleep interval;
       EvReclaimTask q tid rid (inl (TaskclusterRestFailure 409))]
      (Returned tt)
| ren_fatal q e :
    e <> TaskclusterRestFailure 409 ->
    renewals interval tid rid
      [EvSleep interval; EvReclaimTask q tid rid (inl e)]
      (Raised e)
| ren_renewed q r tr o :
    renewals interval tid rid tr o ->
    renewals interval tid rid
      (EvSleep interval :: EvReclaimTask q tid rid (inr r) :: tr) o
| ren_cut :
    renewals interval tid rid [] Pending.

(** The credentials each renewal request of a log was made with. *)
Definition request_credentials (tr : list Event) : list Credentials :=
  flat_map
    (fun e => match e with
              | EvReclaimTask q _ _ _ => [queue_credentials q]
              | _ => []
              end) tr.

(** The successful renewals of a log, in order. *)
Definition renewed (tr : list Event) : list ReclaimResult :=
  flat_map (fun e => match e with EvReclaimTask _ _ _ (inr r) => [r] | _ => [] end) tr.

(** The renewal requests of a log. *)
Definition requests (tr : list Event) : nat :=
  List.length (filter (fun e => match e with EvReclaimTask _ _ _ _ => true | _ => false end) tr).

(** The context after the assignments of the given renewals. *)
Definition assigned (rs : list ReclaimResult) (c : Context.t) : Context.t :=
  fold_left (fun c r => Context.set_reclaim_task r c) rs c.

(** A queue that answers the renewals from a script, then conflicts. *)
#[global] Instance scripted : Env (list (Exc + ReclaimResult)) := {|
  reclaimTask q tid rid w :=
    match w with
    | r :: w' => (r, w')
    | [] => (inl (TaskclusterRestFailure 409), [])
    end;
  suspend d w := w
|}.

Definition fresh (n : string) : ReclaimResult :=
  {| credentials := {| clientId := "worker"%string; accessToken := n |};
     takenUntil := "later"%string |}.

Definition start (script : list (Exc + ReclaimResult))
  : St (list (Exc + ReclaimResult)) Event :=
  mkSt (Sim.context 5 None) script [].

End LeaseKeeper.

(** ** Completion report: [complete_task] *)

Module Reporter.

Inductive Event :=
| EvReportCompleted (q : Queue) (taskId : string) (runId : Z) (reply : option Exc)
| EvReportFailed (q : Queue) (taskId : string) (runId : Z) (reply : option Exc).

Class Env (W : Type) := {
  reportCompleted : Queue -> string -> Z -> W -> option Exc * W;
  reportFailed : Queue -> string -> Z -> W -> option Exc * W
}.

Section WithEnv.

Context {W : Type} {env : Env W}.

(** [await temp_queue.reportCompleted(taskId, runId)] *)
Definition queue_reportCompleted (q : Queue) (tid : string) (rid : Z)
  : M (St W Event) unit :=
  fun s =>
    let '(r, w) := reportCompleted q tid rid (world s) in
    let s' := mkSt (ctx s) w (log s ++ [EvReportCompleted q tid rid r]) in
    match r with
    | None => (Returned tt, s')
    | Some e => (Raised e, s')
    end.

(** [await temp_queue.reportFailed(taskId, runId)] *)
Definition queue_reportFailed (q : Queue) (tid : string) (rid : Z)
  : M (St W Event) unit :=
  fun s =>
    let '(r, w) := reportFailed q tid rid (world s) in
    let s' := mkSt (ctx s) w (log s ++ [EvReportFailed q tid rid r]) in
    match r with
    | None => (Returned tt, s')
    | Some e => (Raised e, s')
    end.

Definition is_TaskclusterRestFailure (e : Exc) : bool :=
  match e with
  | TaskclusterRestFailure _ => true
  | _ => false
  end.

(** The body of [except TaskclusterRestFailure as exc]. *)
Definition on_report_failure (exc : Exc) : M (St W Event) unit :=
  match exc with
  | TaskclusterRestFailure status_code =>
      if status_code =? 409 then ret tt else raise exc
  | _ => raise exc
  end.

Definition complete_task (result : Z) : M (St W Event) unit :=
  c <- get_ctx ;;
  let temp_queue := get_temp_queue c in
  let tid := taskId (Context.task c) in
  let rid := runId (Context.task c) in
  try_except
    (if result =? 0 then queue_reportCompleted temp_queue tid rid
     else queue_reportFailed temp_queue tid rid)
    is_TaskclusterRestFailure
    on_report_failure.

End WithEnv.




(** A queue that gives both reports the same fixed answer. *)
#[global] Instance fixed : Env (option Exc) := {|
  reportCompleted q tid rid w := (w, w);
  reportFailed q tid rid w := (w, w)
|}.

Definition start (answer : option Exc) : St (option Exc) Event :=
  mkSt (Sim.context 5 None) answer [].

End Reporter.

(** ** Artifact upload: [create_artifact], [retry_create_artifact],
       [upload_artifacts] *)

Module Uploader.

Open Scope string_scope.

(** *** Paths, as [posixpath] treats them *)

Definition slash : ascii := "/"%char.

Fixpoint has_slash (p : string) : bool :=
  match p with
  | EmptyString => false
  | String c rest => Ascii.eqb c slash || has_slash rest
  end.

(** [os.path.basename(p)]: [p[p.rfind('/')+1:]] *)
Fixpoint basename (p : string) : string :=
  match p with
  | EmptyString => EmptyString
  | String c rest =>
      if has_slash rest then basename rest
      else if Ascii.eqb c slash then rest
      else p
  end.

(** [p[:p.rfind('/')+1]] *)
Fixpoint upto_last_slash (p : string) : string :=
  match p with
  | EmptyString => EmptyString
  | String c rest =>
      if has_slash rest then String c (upto_last_slash rest)
      else if Ascii.eqb c slash then String c EmptyString
      else EmptyString
  end.

Fixpoint drop_slashes (l : list ascii) : list ascii :=
  match l with
  | c :: rest => if Ascii.eqb c slash then drop_slashes rest else l
  | [] => []
  end.

(** [head.rstrip('/')], unless [head] consists of slashes only *)
Definition rstrip_head (head : string) : string :=
  match drop_slashes (rev (list_ascii_of_string head)) with
  | [] => head
  | l => string_of_list_ascii (rev l)
  end.

(** [os.path.split(p)] *)
Definition split (p : string) : string * string :=
  (rstrip_head (upto_last_slash p), basename p).

Definition startswith_slash (p : string) : bool :=
  match p with
  | String c _ => Ascii.eqb c slash
  | EmptyString => false
  end.

Definition endswith_slash (p : string) : bool :=
  match rev (list_ascii_of_string p) with
  | c :: _ => Ascii.eqb c slash
  | [] => false
  end.

(** [os.path.join(a, b)] *)
Definition join (a b : string) : string :=
  if startswith_slash b then b
  else if (String.eqb a "" || endswith_slash a)%bool then a ++ b
  else a ++ "/" ++ b.

(** *** The file system and [glob] *)

Inductive FileKind := RegularFile | Directory.

Record DirEntry := { name : string; kind : FileKind }.

(** [glob._ishidden] *)
Definition _ishidden (n : string) : bool :=
  match n with
  | String c _ => Ascii.eqb c "."%char
  | EmptyString => false
  end.

Record TcResponse := { putUrl : string; contentType : string }.

Record HttpResponse := { resp_status : Z; resp_text : string }.

(** What the surroundings answer during one call of [create_artifact]:
    the queue to [createArtifact], the file system to [open(path, "rb")],
    and the storage server to the PUT (an exception stands for a timeout
    or a transport failure, a response comes with its body). *)
Record Answers := {
  createArtifact_answer : Exc + TcResponse;
  open_answer : option OSErrorKind;
  put_answer : Exc + HttpResponse
}.

Record Payload := {
  storageType : string;
  expires : Z;
  payload_contentType : option string
}.

Inductive Event :=
| EvCreateArtifact (q : Queue) (taskId : string) (runId : Z) (filename : string)
    (payload : Payload) (reply : Exc + TcResponse)
| EvOpen (path : string) (reply : option OSErrorKind)
| EvPut (url : string) (path : string) (content_type : string) (timeout : Z)
    (reply : Exc + HttpResponse)
| EvSleep (d : Z).

(** The surroundings of the uploader.  [scandir d] lists the entries of
    the directory [d] in the order of [os.listdir], and is [None] where
    [os.listdir] raises.  [get_log_filenames] belongs to
    [scriptworker.log], [guess_type] is [mimetypes.guess_type], [utcnow] is
    the clock in seconds.  [attempts] and [sleeptime] are the attempt
    budget and the delays of [retry_async].  [answers i n] is what the [n]-th
    call of [create_artifact] by the [i]-th upload task is answered. *)
Class Env := {
  scandir : string -> option (list DirEntry);
  get_log_filenames : Context.t -> list string;
  guess_type : string -> option string;
  utcnow : Z;
  attempts : nat;
  sleeptime : nat -> Z;
  answers : nat -> nat -> Answers
}.

Section WithEnv.

Context {env : Env}.

(** [glob.glob1(dirname, '*')]: the names that do not start with a dot;
    the pattern [*] matches every one of them. *)
Definition glob1 (dirname : string) : list string :=
  match scandir (if String.eqb dirname "" then "." else dirname) with
  | None => []
  | Some entries => filter (fun n => negb (_ishidden n)) (map name entries)
  end.

(** [glob.glob(pathname)] for a [pathname] whose last component is [*] and
    whose directory part is free of the wildcard characters. *)
Definition glob (pathname : string) : list string :=
  let '(dirname, _) := split pathname in
  map (join dirname) (glob1 dirname).

Definition note (e : Event) : M (list Event) unit :=
  fun l => (Returned tt, (l ++ [e])%list).

(** [get_expiration_datetime], in seconds *)
Definition get_expiration_datetime (context : Context.t) : Z :=
  (utcnow + 3600 * artifact_expiration_hours (Context.config context))%Z.

Definition guess_content_type (path : string) : option string :=
  guess_type path.

(** [await temp_queue.createArtifact(taskId, runId, filename, payload)] *)
Definition queue_createArtifact (q : Queue) (tid : string) (rid : Z)
    (filename : string) (payload : Payload) (a : Answers) : M (list Event) TcResponse :=
  note (EvCreateArtifact q tid rid filename payload (createArtifact_answer a)) ;;
  match createArtifact_answer a with
  | inr r => ret r
  | inl e => raise e
  end.

(** [open(path, "rb")] *)
Definition open_rb (path : string) (a : Answers) : M (list Event) unit :=
  note (EvOpen path (open_answer a)) ;;
  match open_answer a with
  | None => ret tt
  | Some k => raise (OSError k)
  end.

(** [context.session.put(url, data=fh, headers=...)] under
    [aiohttp.Timeout], with the body of the response read *)
Definition session_put (url path content_type : string) (timeout : Z)
    (a : Answers) : M (list Event) HttpResponse :=
  note (EvPut url path content_type timeout (put_answer a)) ;;
  match put_answer a with
  | inr r => ret r
  | inl e => raise e
  end.

(** [x or y] on an optional string: [None] and [''] are false. *)
Definition or_else (x : option string) (y : option string) : option string :=
  match x with
  | Some t => if String.eqb t "" then y else x
  | None => y
  end.

Definition create_artifact (context : Context.t) (path : string)
    (storage_type : string) (expires : option Z) (content_type : option string)
    (a : Answers) : M (list Event) unit :=
  let temp_queue := get_temp_queue context in
  let filename := basename path in
  let payload :=
    {| storageType := storage_type;
       expires := match expires with
                  | Some e => e
                  | None => get_expiration_datetime context
                  end;
       payload_contentType := or_else content_type (guess_content_type path) |} in
  tc_response <-
    queue_createArtifact temp_queue (taskId (Context.task context))
      (runId (Context.task context)) filename payload a ;;
  open_rb path a ;;
  resp <-
    session_put (putUrl tc_response) path (contentType tc_response)
      (artifact_upload_timeout (Context.config context)) a ;;
  if negb ((resp_status resp =? 200)%Z || (resp_status resp =? 204)%Z)
  then raise (ScriptWorkerRetryException (resp_status resp))
  else ret tt.

Definition is_ScriptWorkerRetryException (e : Exc) : bool :=
  match e with
  | ScriptWorkerRetryException _ => true
  | _ => false
  end.

(** Modelled from the spec: [scriptworker.utils.retry_async] is not among
    the sources.  The call is made; a failure among [retry_exceptions] is
    answered by a delay and one more call as long as the attempt budget
    lasts, and is raised once the budget is used up; any other outcome is
    final at once.  [func n] is the call number [n], [retries] the calls the
    budget still allows after this one. *)
Fixpoint retry_async {A} (retries : nat) (n : nat) (func : nat -> M (list Event) A)
    (retry_exceptions : Exc -> bool) : M (list Event) A :=
  try_except (func n) retry_exceptions
    (fun e =>
       match retries with
       | O => raise e
       | S retries' =>
           note (EvSleep (sleeptime (S n))) ;;
           retry_async retries' (S n) func retry_exceptions
       end).

(** [retry_create_artifact(context, path)], as the [i]-th upload task *)
Definition retry_create_artifact (i : nat) (context : Context.t) (path : string)
  : M (list Event) unit :=
  retry_async (attempts - 1) 0
    (fun n => create_artifact context path "s3" None None (answers i n))
    is_ScriptWorkerRetryException.

(** *** The upload tasks under [asyncio.wait] *)

(** One upload task: the calls of [create_artifact] it has made, its own
    log, and its outcome so far. *)
Record Upload := {
  u_index : nat;
  u_path : string;
  u_calls : nat;
  u_log : list Event;
  u_outcome : Outcome unit
}.

Definition new_upload (ip : nat * string) : Upload :=
  {| u_index := fst ip; u_path := snd ip; u_calls := 0; u_log := [];
     u_outcome := Pending |}.

(** The event loop lets one task run up to its next suspension: one more
    call of [create_artifact], and the delay before the next one. *)
Definition step_upload (context : Context.t) (u : Upload) : Upload :=
  match u_outcome u with
  | Pending =>
      let n := u_calls u in
      match create_artifact context (u_path u) "s3" None None
              (answers (u_index u) n) (u_log u) with
      | (Raised e, l) =>
          if (is_ScriptWorkerRetryException e && (S n <? attempts)%nat)%bool then
            {| u_index := u_index u; u_path := u_path u; u_calls := S n;
               u_log := (l ++ [EvSleep (sleeptime (S n))])%list;
               u_outcome := Pending |}
          else
            {| u_index := u_index u; u_path := u_path u; u_calls := S n;
               u_log := l; u_outcome := Raised e |}
      | (o, l) =>
          {| u_index := u_index u; u_path := u_path u; u_calls := S n;
             u_log := l; u_outcome := o |}
      end
  | _ => u
  end.

Definition advance (context : Context.t) (i : nat) (pool : list Upload) : list Upload :=
  map (fun u => if Nat.eqb (u_index u) i then step_upload context u else u) pool.

(** A schedule names, step by step, the task the event loop resumes. *)
Definition run (context : Context.t) (schedule : list nat) (pool : list Upload)
  : list Upload :=
  fold_left (fun p i => advance context i p) schedule pool.

Definition finished (u : Upload) : bool :=
  match u_outcome u with
  | Pending => false
  | _ => true
  end.

(** [await asyncio.wait(tasks)]: an empty set of tasks is refused; no
    exception of a task is raised here, the outcomes stay with the tasks
    (the pair of sets that [asyncio.wait] returns). *)
Definition asyncio_wait (context : Context.t) (schedule : list nat)
    (tasks : list Upload) : Outcome unit * list Upload :=
  match tasks with
  | [] => (Raised ValueError, [])
  | _ =>
      let pool := run context schedule tasks in
      (if forallb finished pool then Returned tt else Pending, pool)
  end.

(** The list [files] of [upload_artifacts]. *)
Definition files_to_upload (context : Context.t) : list string :=
  (glob (join (artifact_dir (Context.config context)) "*")
   ++ get_log_filenames context)%list.

(** [upload_artifacts] under a schedule; the second component is the set
    of tasks that the coroutine itself throws away. *)
Definition upload_artifacts (context : Context.t) (schedule : list nat)
  : Outcome unit * list Upload :=
  let files := files_to_upload context in
  let tasks := map new_upload (combine (seq 0 (List.length files)) files) in
  asyncio_wait context schedule tasks.

(** The regular files directly inside [dir]. *)
Definition regular_files_in (dir : string) : list string :=
  match scandir (if String.eqb dir "" then "." else dir) with
  | None => []
  | Some entries =>
      map (fun e => join dir (name e))
        (filter (fun e => match kind e with RegularFile => true | Directory => false end)
           entries)
  end.

(** The outcome of the [n]-th call of [create_artifact] by task [i]. *)
Definition call_outcome (i : nat) (context : Context.t) (path : string) (n : nat)
  : Outcome unit :=
  fst (create_artifact context path "s3" None None (answers i n) []).

Definition calls_made (tr : list Event) : nat :=
  List.length
    (filter (fun e => match e with EvCreateArtifact _ _ _ _ _ _ => true | _ => false end) tr).

(** A failure that [retry_create_artifact] answers by another call. *)
Definition retryable (o : Outcome unit) : bool :=
  match o with
  | Raised e => is_ScriptWorkerRetryException e
  | _ => false
  end.

(** The events of the [n]-th call of [create_artifact] by task [i]. *)
Definition call_events (i : nat) (context : Context.t) (path : string) (n : nat)
  : list Event :=
  snd (create_artifact context path "s3" None None (answers i n) []).







End WithEnv.

End Uploader.

(** An artifact directory and a storage server, to run the uploader on. *)
Module Demo.

Import Uploader.

Open Scope string_scope.

Definition artifacts : list DirEntry :=
  [ {| name := "a.txt"; kind := RegularFile |};
    {| name := ".hidden"; kind := RegularFile |};
    {| name := "sub"; kind := Directory |} ].

Definition ok_answers (status : Z) : Answers :=
  {| createArtifact_answer :=
       inr {| putUrl := "https://storage/put"; contentType := "text/plain" |};
     open_answer := None;
     put_answer := inr {| resp_status := status; resp_text := "" |} |}.

(** Opening a directory for reading is refused. *)
Definition directory_answers : Answers :=
  {| createArtifact_answer :=
       inr {| putUrl := "https://storage/put"; contentType := "text/plain" |};
     open_answer := Some IsADirectoryError;
     put_answer := inl (OtherException "unreached") |}.

Definition env_with (budget : nat) (ans : nat -> nat -> Answers) : Env :=
  {| scandir d := if String.eqb d "artifacts" then Some artifacts else None;
     get_log_filenames c := ["logs/task_output.log"; "logs/task_error.log"];
     guess_type p := None;
     utcnow := 0;
     attempts := budget;
     sleeptime n := Z.of_nat n;
     answers := ans |}.

(** The transfer of [a.txt] (task 0) is answered 500 twice, then 200; the
    entry [sub] (task 1) is a directory; the logs go through at once. *)
Definition flaky (i n : nat) : Answers :=
  match i with
  | O => if (n <? 2)%nat then ok_answers 500 else ok_answers 200
  | S O => directory_answers
  | _ => ok_answers 204
  end.

(** Every transfer of task 0 is answered 503. *)
Definition down (i n : nat) : Answers :=
  match i with
  | O => ok_answers 503
  | S O => directory_answers
  | _ => ok_answers 200
  end.

Definition context : Context.t := Sim.context 5 None.

Definition round_robin (rounds : nat) : list nat :=
  List.concat (repeat [0; 1; 2; 3]%nat rounds).

End Demo.

(** ** The parts of [run_task], and further measures of a log *)

Module RunTask.

Import Supervisor.

Section WithEnv.

Context {W : Type} {env : Env W}.

(** The state in which [run_task] calls [max_timeout], once the child [p]
    is spawned and recorded in the context. *)
Definition spawned (s : St W Event) (p : Process) (w : W) : St W Event :=
  mkSt (Context.set_proc (Some p) (ctx s)) w
    (log s ++ [EvSpawn (task_script (Context.config (ctx s))) p]).

(** The statements of [run_task] that follow the await of [max_timeout]. *)
Definition after_watchdog : M (St W Event) Z :=
  exitcode <-
    with_logs
      (c <- get_ctx ;;
       pe <- attr_of (Context.proc c) ;;
       emit (EvLogErrors pe) ;;
       c <- get_ctx ;;
       po <- attr_of (Context.proc c) ;;
       emit (EvReadStdout po) ;;
       await_capture po ;;
       c <- get_ctx ;;
       pw <- attr_of (Context.proc c) ;;
       exitcode <- wait_exit pw ;;
       emit (EvStatusLine exitcode) ;;
       ret exitcode) ;;
  set_context_proc None ;;
  ret exitcode.

End WithEnv.

(** The opening and the closing of the log files. *)
Definition is_log_event (e : Event) : bool :=
  match e with
  | EvOpenLogs | EvCloseLogs => true
  | _ => false
  end.

(** The events that [max_timeout] can log. *)
Definition is_watchdog_event (e : Event) : bool :=
  match e with
  | EvKill _ _ _ | EvSleep _ => true
  | _ => false
  end.


End RunTask.

(** Seconds that [reclaim_task] has spent in [asyncio.sleep] along a log. *)
Definition lease_slept (tr : list LeaseKeeper.Event) : Z :=
  fold_right
    (fun e acc => match e with LeaseKeeper.EvSleep d => Z.max 0 d + acc | _ => acc end)
    0 tr.


(** * Properties *)

(** ** The watchdog *)

Section SupervisorFacts.

Import Supervisor.

Context {W : Type} {env : Env W}.

Lemma sleep_woken d (s : St W Event) :
  sleep d s = (Returned tt, woken d s) /\ log (woken d s) = log s ++ [EvSleep d].
Proof.
  unfold woken, sleep.
  destruct (suspend d (ctx s, world s)) as [c w]; simpl; auto.
Qed.

Lemma kill_cases target sig (s : St W Event) :
  exists r s',
    log s' = log s ++ [EvKill target sig r] /\ ctx s' = ctx s /\
    kill target sig s
    = (match r with None => Returned tt | Some k => Raised (OSError k) end, s').
Proof.
  unfold kill.
  destruct (os_kill target sig (world s)) as [r w].
  exists r. eexists. split; [|split]; [| |destruct r; reflexivity]; reflexivity.
Qed.

Lemma hd_skipn (k : nat) (l : list Z) (d : Z) : hd d (skipn k l) = nth k l d.
Proof.
  revert l; induction k as [|k IH]; intros [|x l]; simpl; auto.
Qed.

Lemma tl_skipn (k : nat) (l : list Z) : tl (skipn k l) = skipn (S k) l.
Proof.
  revert l; induction k as [|k IH]; intros [|x l]; simpl; auto.
Qed.

Lemma accepted_kills_round a b c d e f tr :
  accepted_kills
    (EvKill a b None :: EvKill c d None :: EvSleep 1 :: EvKill e f None :: tr)
  = (3 + accepted_kills tr)%nat.
Proof. reflexivity. Qed.

(** The loop follows the escalation from whatever round it is entered in,
    and only raises members of the [OSError] family. *)
Lemma escalate_follows fuel p k (s : St W Event) :
  exists tr o s',
    escalate fuel p (skipn k [SIGINT; SIGTERM]) s = (o, s') /\
    log s' = log s ++ tr /\
    escalation p k tr (handled o) /\
    (o = Pending \/ exists e, o = Raised (OSError e)) /\
    (o = Pending -> accepted_kills tr = (3 * fuel)%nat).
Proof.
  revert k s; induction fuel as [|fuel IH]; intros k s.
  - exists [], Pending, s. simpl. rewrite app_nil_r.
    repeat split; auto using esc_cut.
  - cbn [escalate]. rewrite hd_skipn, tl_skipn.
    fold (escalation_signal k).
    unfold bind at 1.
    destruct (kill_cases (- p) (escalation_signal k) s) as (r1 & s1 & L1 & _ & E1).
    rewrite E1. destruct r1 as [e1|].
    { exists [EvKill (- p) (escalation_signal k) (Some e1)], (Raised (OSError e1)), s1.
      repeat split; eauto using esc_group_gone; discriminate. }
    unfold bind at 1.
    destruct (kill_cases p (escalation_signal k) s1) as (r2 & s2 & L2 & _ & E2).
    rewrite E2. destruct r2 as [e2|].
    { exists [EvKill (- p) (escalation_signal k) None;
              EvKill p (escalation_signal k) (Some e2)], (Raised (OSError e2)), s2.
      rewrite L2, L1, <- app_assoc.
      repeat split; eauto using esc_leader_gone; discriminate. }
    unfold bind at 1.
    destruct (sleep_woken 1 s2) as [E3 L3]. rewrite E3.
    unfold bind at 1.
    destruct (kill_cases p 0 (woken 1 s2)) as (r4 & s4 & L4 & _ & E4).
    rewrite E4. destruct r4 as [e4|].
    { exists [EvKill (- p) (escalation_signal k) None;
              EvKill p (escalation_signal k) None; EvSleep 1;
              EvKill p 0 (Some e4)], (Raised (OSError e4)), s4.
      rewrite L4, L3, L2, L1, <- !app_assoc.
      repeat split; eauto using esc_probe_gone; discriminate. }
    destruct (IH (S k) s4) as (tr & o & s' & E & L & R & Sh & Cnt).
    exists (EvKill (- p) (escalation_signal k) None
            :: EvKill p (escalation_signal k) None
            :: EvSleep 1 :: EvKill p 0 None :: tr), o, s'.
    rewrite E, L, L4, L3, L2, L1, <- !app_assoc.
    repeat split; auto using esc_alive.
    intros P. rewrite accepted_kills_round, (Cnt P). lia.
Qed.

Lemma escalation_no_capture p k tr o :
  escalation p k tr o -> Forall (fun e => is_capture e = false) tr.
Proof. induction 1; repeat constructor; auto. Qed.



(** Every run of [max_timeout], whatever the handles are. *)
Lemma max_timeout_run fuel proc timeout (s : St W Event) :
  exists tr o s',
    max_timeout fuel proc timeout s = (o, s') /\
    log s' = log s ++ EvSleep timeout :: tr /\
    (forall e, o <> Raised e) /\
    Forall (fun e => is_capture e = false) tr /\
    if same_object proc (Context.proc (ctx (woken timeout s))) then
      match Context.proc (ctx (woken timeout s)) with
      | Some p =>
          escalation (pid p) 0 tr o /\
          (o = Pending -> accepted_kills tr = (3 * fuel)%nat)
      | None => tr = [] /\ o = Returned tt
      end
    else tr = [] /\ o = Returned tt /\ s' = woken timeout s.
Proof.
  unfold max_timeout.
  unfold bind at 1. destruct (sleep_woken timeout s) as [E L]. rewrite E.
  unfold bind at 1, get_ctx at 1.
  destruct (same_object proc (Context.proc (ctx (woken timeout s)))) eqn:Same;
    cbn [negb].
  - destruct (Context.proc (ctx (woken timeout s))) as [p|] eqn:P.
    + unfold try_except, bind at 1, attr_pid, ret.
      destruct (escalate_follows fuel (pid p) 0 (woken timeout s))
        as (tr & o & s' & Ee & Le & R & Sh & Cnt).
      cbn [skipn] in Ee. rewrite Ee.
      exists tr, (handled o), s'.
      assert (Lg : log s' = log s ++ EvSleep timeout :: tr).
      { rewrite Le, L, <- app_assoc. reflexivity. }
      pose proof (escalation_no_capture R) as NC.
      destruct Sh as [-> | [e ->]]; cbn; repeat split; auto; discriminate.
    + exists [], (Returned tt), (woken timeout s).
      unfold try_except, bind, attr_pid, raise. cbn.
      repeat split; auto; discriminate.
  - exists [], (Returned tt), (woken timeout s).
    repeat split; auto; discriminate.
Qed.


(** C7: when the handle that [max_timeout] was given is no longer the
    context's handle at the end of the sleep, it returns at once: the log
    gains the sleep and nothing else, so no signal is sent to whatever
    process the context holds by then. *)
Theorem max_timeout_stale_handle fuel proc timeout (s : St W Event) :
  same_object proc (Context.proc (ctx (woken timeout s))) = false ->
  max_timeout fuel proc timeout s = (Returned tt, woken timeout s)
  /\ log (woken timeout s) = log s ++ [EvSleep timeout]
  /\ world (woken timeout s) = snd (suspend timeout (ctx s, world s))
  /\ filter is_kill (log (woken timeout s)) = filter is_kill (log s).
Proof.
  intros Stale.
  destruct (max_timeout_run fuel proc timeout s) as (tr & o & s' & E & L & _ & _ & R).
  rewrite Stale in R. destruct R as (-> & -> & ->).
  repeat split; auto.
  - unfold woken, sleep. destruct (suspend timeout (ctx s, world s)); reflexivity.
  - rewrite L, filter_app. cbn. apply app_nil_r.
Qed.

(** *** [run_task]: the watchdog comes first *)

Lemma extends_ret A (a : A) : extends (ret a : M (St W Event) A).
Proof. intros s; exists []; cbn; now rewrite app_nil_r. Qed.

Lemma extends_raise A e : extends (raise e : M (St W Event) A).
Proof. intros s; exists []; cbn; now rewrite app_nil_r. Qed.

Lemma extends_get_ctx : extends (get_ctx : M (St W Event) Context.t).
Proof. intros s; exists []; cbn; now rewrite app_nil_r. Qed.

Lemma extends_emit e : extends (emit e : M (St W Event) unit).
Proof. intros s; exists [e]; reflexivity. Qed.

Lemma extends_set_context_proc p :
  extends (set_context_proc p : M (St W Event) unit).
Proof. intros s; exists []; cbn; now rewrite app_nil_r. Qed.

Lemma extends_attr_of x : extends (attr_of x : M (St W Event) Process).
Proof. destruct x; [apply extends_ret | apply extends_raise]. Qed.

Lemma extends_await_capture p : extends (await_capture p).
Proof. intros s; exists [EvAwaitCapture]; reflexivity. Qed.

Lemma extends_wait_exit p : extends (wait_exit p).
Proof.
  intros s; unfold wait_exit.
  destruct (proc_wait p (world s)) as [code w]; eexists; reflexivity.
Qed.

Lemma extends_open_logs : extends open_logs.
Proof.
  intros s; unfold open_logs.
  destruct (get_log_fhs (world s)) as [[e|] w]; cbn.
  - exists []; now rewrite app_nil_r.
  - eexists; reflexivity.
Qed.

Lemma extends_bind A B (m : M (St W Event) A) (k : A -> M (St W Event) B) :
  extends m -> (forall a, extends (k a)) -> extends (bind m k).
Proof.
  intros Hm Hk s. unfold bind.
  destruct (Hm s) as [t1 E1]. destruct (m s) as [[a|e|] s1]; cbn in *.
  - destruct (Hk a s1) as [t2 E2]. exists (t1 ++ t2).
    rewrite E2, E1. apply eq_sym, app_assoc.
  - exists t1; exact E1.
  - exists t1; exact E1.
Qed.

Lemma extends_with_logs A (body : M (St W Event) A) :
  extends body -> extends (with_logs body).
Proof.
  intros Hb. unfold with_logs. apply extends_bind; [apply extends_open_logs|].
  intros _ s. destruct (Hb s) as [t E].
  destruct (body s) as [[a|e|] s1]; cbn in *.
  - exists (t ++ [EvCloseLogs]). rewrite E. apply eq_sym, app_assoc.
  - exists (t ++ [EvCloseLogs]). rewrite E. apply eq_sym, app_assoc.
  - exists t; exact E.
Qed.

Create HintDb extends_db.

#[local] Hint Resolve extends_ret extends_raise extends_get_ctx extends_emit
  extends_set_context_proc extends_attr_of extends_await_capture
  extends_wait_exit extends_with_logs : extends_db.

#[local] Hint Extern 2 (extends (bind _ _)) =>
  apply extends_bind; [ | intros ? ] : extends_db.

Lemma elapsed_app a b : elapsed (a ++ b) = elapsed a + elapsed b.
Proof.
  induction a as [|e a IH]; cbn; [reflexivity|].
  fold (elapsed (a ++ b)); fold (elapsed a). destruct e; lia.
Qed.

Lemma elapsed_nonneg tr : 0 <= elapsed tr.
Proof.
  induction tr as [|e tr IH]; cbn; [lia|].
  fold (elapsed tr). destruct e; lia.
Qed.

(** A capture event of a log lies behind any prefix without one. *)
Lemma capture_behind (l1 l2 pre : list Event) e post :
  l1 ++ l2 = pre ++ e :: post ->
  Forall (fun x => is_capture x = false) l1 ->
  is_capture e = true ->
  exists mid, pre = l1 ++ mid.
Proof.
  revert pre; induction l1 as [|x l1 IH]; intros pre E F C.
  - exists pre; reflexivity.
  - inversion F as [|? ? Fx Fl]; subst. destruct pre as [|y pre]; cbn in E.
    + injection E as -> _. congruence.
    + injection E as -> E. destruct (IH pre E Fl C) as [mid ->].
      exists mid; reflexivity.
Qed.

(** C10: in every run of [run_task] the whole of [max_timeout] precedes
    the first call that touches the output streams: such a call is only
    reached after the watchdog, started on the freshly spawned process,
    has returned, every event of the watchdog lies before it in the log,
    and at least [task_max_timeout] seconds of sleep lie before it; the
    same bound holds for a run that returns an exit code, whatever the
    child does. *)
Theorem run_task_waits_for_watchdog fuel (s : St W Event) o s' :
  run_task fuel s = (o, s') ->
  let argv := task_script (Context.config (ctx s)) in
  let T := task_max_timeout (Context.config (ctx s)) in
  exists tr,
    log s' = log s ++ tr /\
    (forall code, o = Returned code -> T <= elapsed tr) /\
    (forall pre e post,
        tr = pre ++ e :: post -> is_capture e = true ->
        T <= elapsed pre /\
        exists p w sw trw mid,
          create_subprocess_exec argv (world s) = (inr p, w) /\
          max_timeout fuel (Some p) T
            (mkSt (Context.set_proc (Some p) (ctx s)) w (log s ++ [EvSpawn argv p]))
          = (Returned tt, sw) /\
          log sw = log s ++ EvSpawn argv p :: EvSleep T :: trw /\
          pre = EvSpawn argv p :: EvSleep T :: trw ++ mid).
Proof.
  intros Run argv T. revert Run. unfold run_task.
  unfold bind at 1, get_ctx at 1. fold argv.
  unfold bind at 1, spawn at 1.
  destruct (create_subprocess_exec argv (world s)) as [[e|p] w] eqn:Sp.
  { intros [= <- <-]. exists []. cbn. rewrite app_nil_r.
    repeat split; try discriminate.
    all: destruct pre; discriminate. }
  unfold bind at 1, set_context_proc at 1. cbn [ctx world log].
  unfold bind at 1, get_ctx at 1. cbn [ctx Context.proc Context.set_proc Context.config].
  fold T.
  set (s0 := mkSt _ w (log s ++ [EvSpawn argv p])).
  destruct (max_timeout_run fuel (Some p) T s0) as (trw & om & sm & Em & Lm & NR & NC & _).
  unfold bind at 1. rewrite Em.
  assert (Lm' : log sm = log s ++ EvSpawn argv p :: EvSleep T :: trw).
  { rewrite Lm. subst s0. cbn [log]. rewrite <- app_assoc. reflexivity. }
  destruct om as [[]|e|].
  - match goal with
    | |- ?m sm = _ -> _ =>
        assert (Ext : extends m) by auto 30 with extends_db
    end.
    intros Run. destruct (Ext sm) as [tl Etl]. rewrite Run in Etl. cbn [snd] in Etl.
    exists (EvSpawn argv p :: EvSleep T :: trw ++ tl). split; [|split].
    + rewrite Etl, Lm', <- app_assoc. reflexivity.
    + intros _ _.
      change (T <= elapsed ([EvSpawn argv p; EvSleep T] ++ (trw ++ tl))).
      rewrite elapsed_app. pose proof (elapsed_nonneg (trw ++ tl)). cbn. lia.
    + intros pre e post E C.
      destruct (@capture_behind (EvSpawn argv p :: EvSleep T :: trw) tl pre e post)
        as [mid ->]; auto.
      split.
      * change (T <= elapsed ([EvSpawn argv p; EvSleep T] ++ (trw ++ mid))).
        rewrite elapsed_app. pose proof (elapsed_nonneg (trw ++ mid)). cbn. lia.
      * exists p, w, sm, trw, mid. repeat split; auto.
  - destruct (NR e eq_refl).
  - intros [= <- <-].
    exists (EvSpawn argv p :: EvSleep T :: trw). split; [exact Lm'|].
    split; [discriminate|].
    intros pre e post E C. exfalso.
    assert (F : Forall (fun x => is_capture x = false) (EvSpawn argv p :: EvSleep T :: trw))
      by (repeat constructor; auto).
    rewrite Forall_forall in F.
    rewrite (F e) in C; [discriminate|].
    rewrite E. apply in_or_app; right; left; reflexivity.
Qed.

End SupervisorFacts.

(** *** The watchdog on the simulated child *)


(** The context's handle was cleared while the watchdog slept. *)
Lemma max_timeout_stale_handle_witness :
  let p := {| handle := 1; pid := 4242 |} in
  let s := Sim.start 5 (Some p) (Sim.reassigning None) in
  same_object (Some p) (Context.proc (ctx (Supervisor.woken 5 s))) = false
  /\ Supervisor.max_timeout 10 (Some p) 5 s = (Returned tt, Supervisor.woken 5 s)
  /\ log (Supervisor.woken 5 s) = log s ++ [Supervisor.EvSleep 5].
Proof.
  split; [reflexivity|].
  destruct (@max_timeout_stale_handle _ Sim.sim_env 10
              (Some {| handle := 1; pid := 4242 |}) 5
              (Sim.start 5 (Some {| handle := 1; pid := 4242 |}) (Sim.reassigning None))
              eq_refl) as (E & L & _).
  split; assumption.
Defined.

(** The context was given the handle of another process while the watchdog
    slept: the new process receives nothing. *)
Example max_timeout_spares_new_process :
  let old := {| handle := 1; pid := 4242 |} in
  let new := {| handle := 2; pid := 4242 |} in
  let s := Sim.start 5 (Some old) (Sim.reassigning (Some new)) in
  Context.proc (ctx (snd (Supervisor.max_timeout 10 (Some old) 5 s))) = Some new
  /\ Sim.delivered (world (snd (Supervisor.max_timeout 10 (Some old) 5 s))) = [].
Proof. split; reflexivity. Qed.

(** A child that exits at once is still made to wait out the five seconds. *)
Lemma run_task_waits_for_watchdog_witness :
  let s := Sim.start 5 None (Sim.exits_at 0 0) in
  exists tr,
    log (snd (Supervisor.run_task 10 s)) = log s ++ tr /\
    (forall code, fst (Supervisor.run_task 10 s) = Returned code ->
                  5 <= Supervisor.elapsed tr).
Proof.
  destruct (@run_task_waits_for_watchdog _ Sim.sim_env 10
              (Sim.start 5 None (Sim.exits_at 0 0)) _ _ (surjective_pairing _))
    as (tr & L & R & _).
  exists tr. split; assumption.
Defined.

(** C1 on the code: a child that exits at once, under a timeout of five
    seconds.  [run_task] sleeps the five seconds before it opens the logs
    and starts the capture, and the watchdog, whose handle check cannot
    fail there, then signals the child that has long exited.  While the
    child is not yet reaped (first run) the operating system accepts
    SIGINT for the group and for the leader; once it is reaped (second
    run) the first call is refused. *)
Theorem run_task_signals_exited_child :
  let p := {| handle := 1; pid := 4242 |} in
  let argv := ["./task.sh"%string] in
  let zombie := snd (Supervisor.run_task 10 (Sim.start 5 None (Sim.exits_at 0 6))) in
  let reaped := snd (Supervisor.run_task 10 (Sim.start 5 None (Sim.exits_at 0 0))) in
  Sim.running (Sim.exits_at 0 6) = false
  /\ log zombie
     = [Supervisor.EvSpawn argv p;
        Supervisor.EvSleep 5;
        Supervisor.EvKill (-4242) Supervisor.SIGINT None;
        Supervisor.EvKill 4242 Supervisor.SIGINT None;
        Supervisor.EvSleep 1;
        Supervisor.EvKill 4242 0 (Some ProcessLookupError);
        Supervisor.EvOpenLogs;
        Supervisor.EvLogErrors p;
        Supervisor.EvReadStdout p;
        Supervisor.EvAwaitCapture;
        Supervisor.EvProcWait p 0;
        Supervisor.EvStatusLine 0;
        Supervisor.EvCloseLogs]
  /\ Sim.delivered (world zombie)
     = [(-4242, Supervisor.SIGINT); (4242, Supervisor.SIGINT)]
  /\ log reaped
     = [Supervisor.EvSpawn argv p;
        Supervisor.EvSleep 5;
        Supervisor.EvKill (-4242) Supervisor.SIGINT (Some ProcessLookupError);
        Supervisor.EvOpenLogs;
        Supervisor.EvLogErrors p;
        Supervisor.EvReadStdout p;
        Supervisor.EvAwaitCapture;
        Supervisor.EvProcWait p 0;
        Supervisor.EvStatusLine 0;
        Supervisor.EvCloseLogs].
Proof. repeat split. Qed.

(** ** The lease keeper *)

Section LeaseKeeperFacts.

Import LeaseKeeper.

Context {W : Type} {env : Env W}.

Lemma queue_reclaimTask_cases q tid rid (s : St W Event) :
  exists r s',
    log s' = log s ++ [EvReclaimTask q tid rid r] /\ ctx s' = ctx s /\
    queue_reclaimTask q tid rid s
    = (match r with inr result => Returned result | inl e => Raised e end, s').
Proof.
  unfold queue_reclaimTask.
  destruct (reclaimTask q tid rid (world s)) as [r w].
  exists r. eexists. split; [|split]; [| |destruct r; reflexivity]; reflexivity.
Qed.

Lemma not_conflict sc : (sc =? 409) = false -> TaskclusterRestFailure sc <> TaskclusterRestFailure 409.
Proof. intros H [= ->]. discriminate. Qed.


(** Every run of the loop. *)
Lemma reclaim_task_run fuel (s : St W Event) :
  exists tr o s',
    reclaim_task fuel s = (o, s') /\
    log s' = log s ++ tr /\
    renewals (reclaim_interval (Context.config (ctx s)))
      (taskId (Context.task (ctx s))) (runId (Context.task (ctx s))) tr o /\
    ctx s' = assigned (renewed tr) (ctx s) /\
    request_credentials tr
    = firstn (requests tr)
        (Context.temp_credentials (ctx s) :: map credentials (renewed tr)) /\
    (o = Pending -> requests tr = fuel /\ List.length (renewed tr) = fuel).
Proof.
  revert s; induction fuel as [|fuel IH]; intros s.
  - exists [], Pending, s. cbn. rewrite app_nil_r.
    repeat split; auto using ren_cut.
  - cbn [reclaim_task].
    unfold bind at 1, get_ctx at 1.
    unfold bind at 1, sleep at 1.
    unfold bind at 1, get_ctx at 1. cbn [ctx].
    set (s1 := mkSt (ctx s) _ (log s ++ [EvSleep _])).
    unfold bind at 1, try_except at 1, bind at 1.
    destruct (queue_reclaimTask_cases (get_temp_queue (ctx s))
                (taskId (Context.task (ctx s))) (runId (Context.task (ctx s))) s1)
      as (r & s2 & L2 & C2 & E2).
    rewrite E2. destruct r as [e|r].
    + (* the renewal is rejected *)
      assert (Lg : log s2 = log s ++ [EvSleep (reclaim_interval (Context.config (ctx s)));
                                      EvReclaimTask (get_temp_queue (ctx s))
                                        (taskId (Context.task (ctx s)))
                                        (runId (Context.task (ctx s))) (inl e)]).
      { rewrite L2. subst s1. cbn [log]. rewrite <- app_assoc. reflexivity. }
      destruct e as [ |k|sc|st| | |n]; cbn [is_TaskclusterRestFailure on_reclaim_failure].
      3: destruct (sc =? 409) eqn:Q;
           [ apply Z.eqb_eq in Q; subst sc | apply not_conflict in Q ].
      all: cbn [raise ret];
        do 3 eexists; (split; [reflexivity|]); (split; [exact Lg|]);
        split; [ first [ apply ren_conflict | apply ren_fatal; first [assumption | discriminate] ] | ];
        split; [ rewrite C2; reflexivity | ];
        split; [ reflexivity | discriminate ].
    + (* the renewal succeeds *)
      unfold bind, set_context_reclaim_task, ret.
      set (s3 := mkSt (Context.set_reclaim_task r (ctx s2)) (world s2) (log s2)).
      destruct (IH s3) as (tr & o & s' & E & L & R & C & Q & P).
      subst s3. cbn [ctx log Context.config Context.task Context.set_reclaim_task
                       Context.temp_credentials] in *.
      rewrite C2 in *. subst s1. cbn [log ctx] in *.
      exists (EvSleep (reclaim_interval (Context.config (ctx s)))
              :: EvReclaimTask (get_temp_queue (ctx s))
                   (taskId (Context.task (ctx s))) (runId (Context.task (ctx s))) (inr r)
              :: tr), o, s'.
      split; [exact E|].
      split; [rewrite L, L2, <- !app_assoc; reflexivity|].
      split; [apply ren_renewed; exact R|].
      split; [exact C|].
      split.
      * cbn. fold (request_credentials tr) (renewed tr) (requests tr).
        rewrite Q. reflexivity.
      * intros Pn. destruct (P Pn) as [P1 P2]. cbn.
        fold (requests tr) (renewed tr). rewrite P1, P2. auto.
Qed.


(** C9: the context that the loop leaves behind is the one it started
    with after the assignment of each successful renewal, in order, and
    nothing else: its configuration, task and process handle are
    untouched, its credentials are those of the last successful renewal,
    and each request is made with the credentials of the renewal before
    it.  The loop returns [None]. *)
Theorem reclaim_task_only_replaces_credentials fuel (s : St W Event) :
  exists tr o s',
    reclaim_task fuel s = (o, s') /\
    log s' = log s ++ tr /\
    ctx s' = assigned (renewed tr) (ctx s) /\
    Context.config (ctx s') = Context.config (ctx s) /\
    Context.task (ctx s') = Context.task (ctx s) /\
    Context.proc (ctx s') = Context.proc (ctx s) /\
    Context.temp_credentials (ctx s')
    = last (map credentials (renewed tr)) (Context.temp_credentials (ctx s)) /\
    request_credentials tr
    = firstn (requests tr)
        (Context.temp_credentials (ctx s) :: map credentials (renewed tr)) /\
    (o = Returned tt \/ o = Pending \/ exists e, o = Raised e).
Proof.
  destruct (reclaim_task_run fuel s) as (tr & o & s' & E & L & _ & C & Q & _).
  exists tr, o, s'.
  assert (D : forall (l : list Credentials) x d1 d2, last (x :: l) d1 = last (x :: l) d2).
  { induction l as [|y l IHl]; intros x d1 d2; [reflexivity|].
    change (last (y :: l) d1 = last (y :: l) d2). apply IHl. }
  assert (F : forall rs c,
             Context.config (assigned rs c) = Context.config c
             /\ Context.task (assigned rs c) = Context.task c
             /\ Context.proc (assigned rs c) = Context.proc c
             /\ Context.temp_credentials (assigned rs c)
                = last (map credentials rs) (Context.temp_credentials c)).
  { induction rs as [|r rs IHrs]; intros c; [cbn; auto|].
    destruct (IHrs (Context.set_reclaim_task r c)) as (F1 & F2 & F3 & F4).
    change (assigned (r :: rs) c) with (assigned rs (Context.set_reclaim_task r c)).
    rewrite F1, F2, F3, F4. repeat split.
    destruct rs as [|r0 rs]; [reflexivity|].
    change (last (map credentials (r0 :: rs)) (credentials r)
            = last (map credentials (r0 :: rs)) (Context.temp_credentials c)).
    apply D. }
  destruct (F (renewed tr) (ctx s)) as (F1 & F2 & F3 & F4).
  rewrite C. repeat split; auto.
  destruct o as [[]| |]; eauto.
Qed.

End LeaseKeeperFacts.

(** ** The completion report *)

Section ReporterFacts.

Import Reporter.

Context {W : Type} {env : Env W}.



End ReporterFacts.

(** A kill by the watchdog is reported as a failure, and a conflict on
    that report is swallowed. *)
Example complete_task_after_kill :
  Reporter.complete_task (-9) (Reporter.start (Some (TaskclusterRestFailure 409)))
  = (Returned tt,
     mkSt (Sim.context 5 None) (Some (TaskclusterRestFailure 409))
       [Reporter.EvReportFailed (get_temp_queue (Sim.context 5 None))
          "task-0"%string 0 (Some (TaskclusterRestFailure 409))]).
Proof. reflexivity. Qed.

(** The lease is renewed twice, each time with the credentials of the
    renewal before, until the queue answers with a conflict. *)
Example reclaim_task_until_conflict :
  let run :=
    LeaseKeeper.reclaim_task 10
      (LeaseKeeper.start [inr (LeaseKeeper.fresh "t1"); inr (LeaseKeeper.fresh "t2")]) in
  fst run = Returned tt
  /\ LeaseKeeper.requests (log (snd run)) = 3%nat
  /\ Context.temp_credentials (ctx (snd run)) = credentials (LeaseKeeper.fresh "t2")
  /\ map accessToken (LeaseKeeper.request_credentials (log (snd run)))
     = ["t0"; "t1"; "t2"]%string.
Proof. repeat split. Qed.

(** A renewal rejected with status 500 is raised, and not asked again. *)
Example reclaim_task_fatal :
  let run :=
    LeaseKeeper.reclaim_task 10
      (LeaseKeeper.start [inr (LeaseKeeper.fresh "t1"); inl (TaskclusterRestFailure 500);
                          inr (LeaseKeeper.fresh "t2")]) in
  fst run = Raised (TaskclusterRestFailure 500)
  /\ LeaseKeeper.requests (log (snd run)) = 2%nat.
Proof. repeat split. Qed.

(** ** The uploader *)

Section UploaderFacts.

Import Uploader.

Context {env : Env}.

Open Scope list_scope.
Open Scope nat_scope.

(** One call of [create_artifact]: its outcome and its events do not
    depend on the log it is added to, it asks the queue exactly once, and
    it comes to an end. *)
Lemma create_artifact_call context path st ex ct a (l : list Event) :
  create_artifact context path st ex ct a l
  = (fst (create_artifact context path st ex ct a []),
     l ++ snd (create_artifact context path st ex ct a []))
  /\ fst (create_artifact context path st ex ct a []) <> Pending
  /\ calls_made (snd (create_artifact context path st ex ct a [])) = 1.
Proof.
  unfold create_artifact, queue_createArtifact, open_rb, session_put, bind, note, ret, raise.
  destruct (createArtifact_answer a) as [e1|tc]; cbn.
  { repeat split; discriminate. }
  destruct (open_answer a) as [k|]; cbn.
  { rewrite <- !app_assoc. repeat split; discriminate. }
  destruct (put_answer a) as [e3|resp]; cbn.
  { rewrite <- !app_assoc. repeat split; discriminate. }
  destruct ((resp_status resp =? 200)%Z || (resp_status resp =? 204)%Z)%bool; cbn;
    rewrite <- !app_assoc; repeat split; discriminate.
Qed.

Lemma calls_made_app a b : calls_made (a ++ b) = calls_made a + calls_made b.
Proof. unfold calls_made. rewrite filter_app. apply length_app. Qed.

(** Every run of [retry_async] over the calls of one upload task, entered
    at call [n] with [retries] calls to spare: it ends with the outcome of
    some call [n + k], all calls before that one failed in the retried
    way, and a run that ends in the retried way has used up its calls. *)
Lemma retry_async_run i context path retries :
  forall n (l : list Event),
  exists k tr,
    retry_async retries n
      (fun n => create_artifact context path "s3"%string None None (answers i n))
      is_ScriptWorkerRetryException l
    = (call_outcome i context path (n + k), l ++ tr)
    /\ k <= retries
    /\ calls_made tr = S k
    /\ (forall j, j < k ->
          exists st, call_outcome i context path (n + j)
                     = Raised (ScriptWorkerRetryException st))
    /\ (retryable (call_outcome i context path (n + k)) = true -> k = retries).
Proof.
  induction retries as [|retries IH]; intros n l.
  - exists 0. exists (call_events i context path n).
    cbn [retry_async]. unfold try_except.
    destruct (create_artifact_call context path "s3"%string None None (answers i n) l)
      as (E & NP & C).
    rewrite E. fold (call_outcome i context path n) (call_events i context path n).
    rewrite Nat.add_0_r.
    split.
    { destruct (call_outcome i context path n) as [[]|e|]; auto.
      destruct (is_ScriptWorkerRetryException e); reflexivity. }
    repeat split; auto. intros j Hj; lia.
  - cbn [retry_async]. unfold try_except.
    destruct (create_artifact_call context path "s3"%string None None (answers i n) l)
      as (E & NP & C).
    rewrite E. fold (call_outcome i context path n) (call_events i context path n).
    fold (call_outcome i context path n) (call_events i context path n) in NP, C.
    destruct (call_outcome i context path n) as [[]|e|] eqn:O.
    + exists 0, (call_events i context path n). rewrite Nat.add_0_r, O.
      repeat split; auto; try lia. discriminate.
    + destruct (is_ScriptWorkerRetryException e) eqn:R.
      * unfold bind, note.
        destruct (IH (S n) ((l ++ call_events i context path n)
                            ++ [EvSleep (sleeptime (S n))]))
          as (k & tr & E' & Le & Ck & Before & Last).
        exists (S k), (call_events i context path n ++ EvSleep (sleeptime (S n)) :: tr).
        replace (n + S k) with (S n + k) by lia.
        split; [rewrite E'; f_equal; rewrite <- !app_assoc; reflexivity|].
        split; [lia|].
        split.
        { rewrite calls_made_app, C.
          change (EvSleep (sleeptime (S n)) :: tr) with ([EvSleep (sleeptime (S n))] ++ tr).
          rewrite calls_made_app, Ck. reflexivity. }
        split.
        { intros [|j] Hj.
          - rewrite Nat.add_0_r, O. destruct e; try discriminate. eauto.
          - replace (n + S j) with (S n + j) by lia. apply Before. lia. }
        intros Rk. f_equal. auto.
      * exists 0, (call_events i context path n). rewrite Nat.add_0_r, O.
        repeat split; auto; try lia. cbn. rewrite R. discriminate.
    + contradiction.
Qed.

(** C5: a call of [create_artifact] whose transfer is answered with a
    response returns normally if the status is 200 or 204 and raises
    [ScriptWorkerRetryException] with the status otherwise; and
    [retry_create_artifact] ends with the outcome of some call [k] within
    the attempt budget, where every earlier call failed with that
    exception, and where a run that ends with that exception has made as
    many calls as the budget allows. *)
Theorem create_artifact_status_and_retry i context path :
  (forall st ex ct tc resp (l : list Event),
      fst (create_artifact context path st ex ct
             {| createArtifact_answer := inr tc; open_answer := None;
                put_answer := inr resp |} l)
      = if ((resp_status resp =? 200)%Z || (resp_status resp =? 204)%Z)%bool
        then Returned tt
        else Raised (ScriptWorkerRetryException (resp_status resp)))
  /\ (forall l : list Event,
       exists k tr,
         retry_create_artifact i context path l
         = (call_outcome i context path k, l ++ tr)
         /\ S k <= Nat.max 1 attempts
         /\ calls_made tr = S k
         /\ (forall j, j < k ->
               exists st, call_outcome i context path j
                          = Raised (ScriptWorkerRetryException st))
         /\ (retryable (call_outcome i context path k) = true ->
             S k = Nat.max 1 attempts)).
Proof.
  split.
  - intros st ex ct tc resp l.
    unfold create_artifact, queue_createArtifact, open_rb, session_put, bind, note,
      ret, raise. cbn.
    destruct ((resp_status resp =? 200)%Z || (resp_status resp =? 204)%Z)%bool;
      reflexivity.
  - intros l. unfold retry_create_artifact.
    destruct (retry_async_run i context path (attempts - 1) 0 l)
      as (k & tr & E & Le & C & Before & Last).
    exists k, tr. cbn [Nat.add] in *.
    repeat split; auto; try lia.
    intros R. specialize (Last R). lia.
Qed.

(** *** The tasks under a schedule *)













End UploaderFacts.

(** *** The uploader on the demonstration directory *)

(** The transfer of [a.txt] is answered 500, 500 and 200: the third call
    succeeds, and all four tasks are finished after three rounds. *)
Example upload_survives_two_bad_answers :
  let run :=
    @Uploader.upload_artifacts (Demo.env_with 5 Demo.flaky) Demo.context
      (Demo.round_robin 3) in
  fst run = Returned tt
  /\ map (fun u => (Uploader.u_path u, Uploader.u_calls u, Uploader.u_outcome u)) (snd run)
     = [("artifacts/a.txt"%string, 3%nat, Returned tt);
        ("artifacts/sub"%string, 1%nat, Raised (OSError IsADirectoryError));
        ("logs/task_output.log"%string, 1%nat, Returned tt);
        ("logs/task_error.log"%string, 1%nat, Returned tt)].
Proof. split; reflexivity. Qed.

(** With every transfer of [a.txt] answered 503 and a budget of three
    calls, its task ends with the third failure; the other tasks end as
    they do on their own, in whatever order the tasks are resumed. *)
Example upload_exhausts_budget :
  let run :=
    @Uploader.upload_artifacts (Demo.env_with 3 Demo.down) Demo.context
      [3; 2; 0; 1; 0; 0]%nat in
  fst run = Returned tt
  /\ map (fun u => (Uploader.u_calls u, Uploader.u_outcome u)) (snd run)
     = [(3%nat, Raised (ScriptWorkerRetryException 503));
        (1%nat, Raised (OSError IsADirectoryError));
        (1%nat, Returned tt);
        (1%nat, Returned tt)].
Proof. split; reflexivity. Qed.


(** C8 on the code: an artifact directory with a regular file, a hidden
    regular file and a subdirectory.  The files handed to the upload tasks
    are the visible entries of the directory, the subdirectory among
    them, followed by the logs; the hidden regular file is left out. *)
Theorem upload_artifacts_takes_visible_entries :
  let files := @Uploader.files_to_upload (Demo.env_with 5 Demo.flaky) Demo.context in
  files
  = ["artifacts/a.txt"; "artifacts/sub"; "logs/task_output.log";
     "logs/task_error.log"]%string
  /\ @Uploader.regular_files_in (Demo.env_with 5 Demo.flaky) "artifacts"
     = ["artifacts/a.txt"; "artifacts/.hidden"]%string
  /\ map Uploader.u_path
       (snd (@Uploader.upload_artifacts (Demo.env_with 5 Demo.flaky) Demo.context []))
     = files.
Proof. repeat split. Qed.

(** * Further properties *)

(** ** [run_task] as a whole *)

Section RunTaskFacts.

Import Supervisor RunTask.

Context {W : Type} {env : Env W}.

(** [run_task] is the spawn, then the watchdog on the spawned state, then
    the rest. *)
Lemma run_task_parts fuel (s : St W Event) :
  run_task fuel s
  = match create_subprocess_exec (task_script (Context.config (ctx s))) (world s) with
    | (inl e, w) => (Raised e, mkSt (ctx s) w (log s))
    | (inr p, w) =>
        bind (max_timeout fuel (Some p) (task_max_timeout (Context.config (ctx s))))
          (fun _ => after_watchdog) (spawned s p w)
    end.
Proof.
  unfold run_task, after_watchdog, spawned.
  unfold bind at 1, get_ctx at 1. unfold bind at 1, spawn at 1.
  destruct (create_subprocess_exec _ (world s)) as [[e|p] w]; reflexivity.
Qed.

(** The three ways in which the rest of [run_task] ends. *)
Lemma after_watchdog_cases (sm : St W Event) :
  (exists e w1,
      get_log_fhs (world sm) = (Some e, w1)
      /\ after_watchdog sm = (Raised e, mkSt (ctx sm) w1 (log sm)))
  \/ (exists w1,
        get_log_fhs (world sm) = (None, w1)
        /\ Context.proc (ctx sm) = None
        /\ after_watchdog sm
           = (Raised AttributeError,
              mkSt (ctx sm) w1 (log sm ++ [EvOpenLogs; EvCloseLogs])))
  \/ (exists w1 p code w3,
        get_log_fhs (world sm) = (None, w1)
        /\ Context.proc (ctx sm) = Some p
        /\ proc_wait p (capture p w1) = (code, w3)
        /\ after_watchdog sm
           = (Returned code,
              mkSt (Context.set_proc None (ctx sm)) w3
                (log sm ++ [EvOpenLogs; EvLogErrors p; EvReadStdout p;
                            EvAwaitCapture; EvProcWait p code;
                            EvStatusLine code; EvCloseLogs]))).
Proof.
  unfold after_watchdog, with_logs, open_logs, bind, get_ctx, emit, await_capture,
    wait_exit, set_context_proc, attr_of, ret, raise.
  destruct (get_log_fhs (world sm)) as [[e|] w1]; cbn.
  - left. exists e, w1. split; reflexivity.
  - right. destruct (Context.proc (ctx sm)) as [p|] eqn:P;
      cbn; rewrite ?P; cbn; rewrite ?P; cbn.
    + right. destruct (proc_wait p (capture p w1)) as [code w3] eqn:Wt. cbn.
      exists w1, p, code, w3. repeat split; try assumption.
      rewrite <- !app_assoc. reflexivity.
    + left. exists w1. repeat split. rewrite <- !app_assoc. reflexivity.
Qed.

Lemma escalation_watchdog_events p k tr o :
  escalation p k tr o -> Forall (fun e => is_watchdog_event e = true) tr.
Proof. induction 1; repeat constructor; auto. Qed.

(** The watchdog on the spawned state: what it logs, and how [run_task]
    goes on. *)
Lemma run_task_watchdog fuel (s : St W Event) p w :
  create_subprocess_exec (task_script (Context.config (ctx s))) (world s) = (inr p, w) ->
  exists trw om sm,
    max_timeout fuel (Some p) (task_max_timeout (Context.config (ctx s))) (spawned s p w)
    = (om, sm)
    /\ log sm
       = log s ++ EvSpawn (task_script (Context.config (ctx s))) p
                  :: EvSleep (task_max_timeout (Context.config (ctx s))) :: trw
    /\ Forall (fun e => is_watchdog_event e = true) trw
    /\ ((om = Returned tt /\ run_task fuel s = after_watchdog sm)
        \/ (om = Pending /\ run_task fuel s = (Pending, sm))).
Proof.
  intros Sp.
  destruct (max_timeout_run fuel (Some p) (task_max_timeout (Context.config (ctx s)))
              (spawned s p w)) as (trw & om & sm & Em & Lm & NR & _ & Sh).
  exists trw, om, sm. split; [exact Em|]. split; [|split].
  - rewrite Lm. unfold spawned. cbn [log]. rewrite <- app_assoc. reflexivity.
  - destruct (same_object _ _).
    + destruct (Context.proc _); [|destruct Sh as [-> _]; constructor].
      destruct Sh as [R _]. eapply escalation_watchdog_events; eauto.
    + destruct Sh as [-> _]; constructor.
  - rewrite run_task_parts, Sp. unfold bind. rewrite Em.
    destruct om as [[]|e|]; auto. destruct (NR e eq_refl).
Qed.


(** X2: in every run of [run_task] the log files are opened at most once,
    and an opening is always followed by a closing, also when the run
    ends with an exception. *)
Theorem run_task_closes_logs fuel (s : St W Event) :
  exists tr,
    log (snd (run_task fuel s)) = log s ++ tr
    /\ (filter is_log_event tr = []
        \/ filter is_log_event tr = [EvOpenLogs; EvCloseLogs]).
Proof.
  destruct (create_subprocess_exec (task_script (Context.config (ctx s))) (world s))
    as [[e|p0] w] eqn:Sp.
  { rewrite run_task_parts, Sp. exists []. cbn. rewrite app_nil_r. auto. }
  destruct (run_task_watchdog fuel s Sp) as (trw & om & sm & Em & Lm & F & R).
  assert (Q : filter is_log_event trw = []).
  { clear - F. induction F as [|x l Hx _ IH]; [reflexivity|].
    cbn. destruct x; try discriminate; exact IH. }
  destruct R as [[_ R]|[_ R]]; rewrite R.
  - destruct (after_watchdog_cases sm)
      as [(e & w1 & _ & A) | [(w1 & _ & _ & A) | (w1 & p & c & w3 & _ & _ & _ & A)]];
      rewrite A; cbn [snd log]; rewrite Lm, <- ?app_assoc; eexists;
      (split; [reflexivity|]); cbn [filter is_log_event app];
      rewrite ?filter_app, Q; cbn; auto.
  - cbn [snd]. rewrite Lm. eexists. split; [reflexivity|].
    cbn [filter is_log_event]. rewrite Q. auto.
Qed.


(** X4: as [run_task] calls it, the watchdog always goes through with its
    first signal: unless another coroutine gives [context.proc] another
    object during the sleep, the sleep of [task_max_timeout] is followed
    by SIGINT for the process group of the context's process, whatever
    that process has done in the meantime. *)
Theorem run_task_always_signals fuel (s : St W Event) p w :
  create_subprocess_exec (task_script (Context.config (ctx s))) (world s) = (inr p, w) ->
  same_object (Some p)
    (Context.proc
       (ctx (woken (task_max_timeout (Context.config (ctx s))) (spawned s p w)))) = true ->
  exists p' r rest,
    Context.proc
      (ctx (woken (task_max_timeout (Context.config (ctx s))) (spawned s p w))) = Some p'
    /\ handle p' = handle p
    /\ log (snd (run_task (S fuel) s))
       = log s
         ++ EvSpawn (task_script (Context.config (ctx s))) p
            :: EvSleep (task_max_timeout (Context.config (ctx s)))
            :: EvKill (- pid p') SIGINT r
            :: rest.
Proof.
  intros Sp Same.
  set (T := task_max_timeout (Context.config (ctx s))) in *.
  destruct (max_timeout_run (S fuel) (Some p) T (spawned s p w))
    as (trw & om & sm & Em & Lm & NR & _ & Sh).
  rewrite Same in Sh.
  destruct (Context.proc (ctx (woken T (spawned s p w)))) as [p'|] eqn:P;
    [|discriminate Same].
  destruct Sh as [Esc Cnt].
  assert (First : exists r rest', trw = EvKill (- pid p') SIGINT r :: rest').
  { inversion Esc; subst; eauto.
    specialize (Cnt eq_refl). discriminate Cnt. }
  destruct First as (r & rest' & ->).
  assert (Ext : exists tl, log (snd (run_task (S fuel) s)) = log sm ++ tl).
  { rewrite run_task_parts, Sp. unfold bind. fold T. rewrite Em.
    destruct om as [[]|e|].
    - destruct (after_watchdog_cases sm)
        as [(e1 & w1 & _ & A) | [(w1 & _ & _ & A) | (w1 & q & c & w3 & _ & _ & _ & A)]];
        rewrite A; cbn [snd log]; eexists; try reflexivity.
      symmetry; apply app_nil_r.
    - exists []. symmetry; apply app_nil_r.
    - exists []. symmetry; apply app_nil_r. }
  destruct Ext as [tl Etl].
  exists p', r, (rest' ++ tl). split; [reflexivity|]. split.
  - cbn in Same. apply Nat.eqb_eq in Same. auto.
  - rewrite Etl, Lm. unfold spawned. cbn [log]. rewrite <- !app_assoc. reflexivity.
Qed.

End RunTaskFacts.



(** The child has exited and is reaped; SIGINT is sent all the same. *)
Lemma run_task_always_signals_witness :
  let s := Sim.start 5 None (Sim.exits_at 0 0) in
  exists p' r rest,
    Context.proc
      (ctx (Supervisor.woken 5
              (RunTask.spawned s {| handle := 1; pid := 4242 |} (world s)))) = Some p'
    /\ handle p' = 1%nat
    /\ log (snd (Supervisor.run_task 3 s))
       = log s
         ++ Supervisor.EvSpawn ["./task.sh"%string] {| handle := 1; pid := 4242 |}
            :: Supervisor.EvSleep 5
            :: Supervisor.EvKill (- pid p') Supervisor.SIGINT r
            :: rest.
Proof.
  exact (@run_task_always_signals _ Sim.sim_env 2
           (Sim.start 5 None (Sim.exits_at 0 0)) {| handle := 1; pid := 4242 |}
           (Sim.exits_at 0 0) eq_refl eq_refl).
Defined.

(** ** One call of [create_artifact] *)

Section CreateArtifactFacts.

Import Uploader.

Context {env : Env}.

Open Scope list_scope.

(** X5: a call of [create_artifact] never opens the file unless the queue
    has handed out an upload target, and never sends anything unless the
    file could be opened; what it sends goes to the [putUrl] of the
    queue's answer, with the content type of that answer as header and
    under the configured upload timeout; and the name it registers with
    the queue is the base name of the path. *)
Theorem create_artifact_order context path st ex ct a :
  let tr := snd (create_artifact context path st ex ct a []) in
  (forall p r, In (EvOpen p r) tr ->
     p = path /\ exists tc, createArtifact_answer a = inr tc)
  /\ (forall url p h t r, In (EvPut url p h t r) tr ->
        exists tc,
          createArtifact_answer a = inr tc /\ open_answer a = None
          /\ url = putUrl tc /\ h = contentType tc /\ p = path
          /\ t = artifact_upload_timeout (Context.config context))
  /\ (forall q tid rid f pl r, In (EvCreateArtifact q tid rid f pl r) tr ->
        f = basename path /\ q = get_temp_queue context
        /\ tid = taskId (Context.task context)
        /\ rid = runId (Context.task context)).
Proof.
  unfold create_artifact, queue_createArtifact, open_rb, session_put, bind, note,
    ret, raise.
  destruct (createArtifact_answer a) as [e1|tc] eqn:A1; cbn.
  { repeat split; intros; repeat match goal with
      | H : _ \/ _ |- _ => destruct H
      | H : False |- _ => destruct H
      | H : _ = _ |- _ => try discriminate H; injection H as; subst
      end; auto. }
  destruct (open_answer a) as [k|] eqn:A2; cbn.
  { repeat split; intros; repeat match goal with
      | H : _ \/ _ |- _ => destruct H
      | H : False |- _ => destruct H
      | H : _ = _ |- _ => try discriminate H; injection H as; subst
      end; eauto. }
  destruct (put_answer a) as [e3|resp] eqn:A3; cbn;
    [|destruct ((resp_status resp =? 200)%Z || (resp_status resp =? 204)%Z)%bool; cbn];
    repeat split; intros; repeat match goal with
      | H : _ \/ _ |- _ => destruct H
      | H : False |- _ => destruct H
      | H : _ = _ |- _ => try discriminate H; injection H as; subst
      end; eauto 10.
Qed.

End CreateArtifactFacts.

(** ** The files that [upload_artifacts] takes *)

Section FilesFacts.

Import Uploader.

Context {env : Env}.

Open Scope string_scope.

Lemma has_slash_app a b : has_slash (a ++ b) = (has_slash a || has_slash b)%bool.
Proof.
  induction a as [|c a IH]; cbn; [reflexivity|].
  rewrite IH. apply orb_assoc.
Qed.

Lemma basename_plain n : has_slash n = false -> basename n = n.
Proof.
  destruct n as [|c n]; cbn; [reflexivity|].
  intros H. apply orb_false_iff in H. destruct H as [H1 H2].
  rewrite H1, H2. reflexivity.
Qed.

(** The base name of a path that ends in a slash-free component behind a
    slash is that component. *)
Lemma basename_behind_slash a n :
  has_slash n = false -> basename (a ++ String slash n) = n.
Proof.
  intros H. induction a as [|c a IH]; cbn.
  - rewrite H. reflexivity.
  - rewrite has_slash_app. cbn. rewrite orb_true_r. exact IH.
Qed.



Lemma string_of_list_app l1 l2 :
  string_of_list_ascii (l1 ++ l2)%list
  = string_of_list_ascii l1 ++ string_of_list_ascii l2.
Proof. induction l1 as [|c l1 IH]; cbn; [reflexivity|]. now rewrite IH. Qed.

Lemma append_assoc (a b c : string) : (a ++ b) ++ c = a ++ (b ++ c).
Proof. induction a as [|x a IH]; cbn; [reflexivity|]. now rewrite IH. Qed.

(** A string that ends with a slash is some string followed by a slash. *)
Lemma endswith_slash_inv d :
  endswith_slash d = true -> exists d', d = d' ++ String slash EmptyString.
Proof.
  unfold endswith_slash. intros H.
  destruct (rev (list_ascii_of_string d)) as [|c l] eqn:R; [discriminate|].
  apply Ascii.eqb_eq in H. subst c.
  exists (string_of_list_ascii (rev l)).
  rewrite <- (string_of_list_ascii_of_string d), <- (rev_involutive (list_ascii_of_string d)), R.
  cbn. rewrite string_of_list_app. reflexivity.
Qed.



Lemma basename_join d n : has_slash n = false -> basename (join d n) = n.
Proof.
  intros H. unfold join.
  assert (S0 : startswith_slash n = false).
  { destruct n as [|c n]; [reflexivity|]. cbn in *.
    apply orb_false_iff in H. tauto. }
  rewrite S0.
  destruct (String.eqb_spec d "") as [->|NE]; cbn [orb].
  - cbn. apply basename_plain, H.
  - destruct (endswith_slash d) eqn:E.
    + destruct (endswith_slash_inv d E) as [d' ->].
      rewrite append_assoc. cbn. apply basename_behind_slash, H.
    + change ("/" ++ n) with (String slash n). apply basename_behind_slash, H.
Qed.




(** X8: a file whose name has no slash is registered with the queue under
    that name alone, whatever the directory it is joined to: the first
    event of every call of [create_artifact] for the joined path is the
    [createArtifact] request with the bare name. *)
Theorem artifact_named_by_entry context d n i k :
  has_slash n = false ->
  basename (join d n) = n
  /\ exists pl r rest,
       call_events i context (join d n) k
       = EvCreateArtifact (get_temp_queue context) (taskId (Context.task context))
           (runId (Context.task context)) n pl r :: rest.
Proof.
  intros H. split; [exact (@basename_join d n H)|].
  unfold call_events, create_artifact, queue_createArtifact, bind, note.
  rewrite (@basename_join d n H). cbn.
  destruct (createArtifact_answer (answers i k)) as [e|tc]; cbn; [eauto|].
  unfold open_rb, bind, note. cbn.
  destruct (open_answer (answers i k)); cbn; [eauto|].
  unfold session_put, bind, note. cbn.
  destruct (put_answer (answers i k)) as [e|resp]; cbn; [eauto|].
  destruct (_ || _)%bool; cbn; eauto.
Qed.

End FilesFacts.



Lemma artifact_named_by_entry_witness :
  Uploader.basename (Uploader.join "artifacts"%string "a.txt"%string)
  = "a.txt"%string.
Proof.
  exact (proj1 (@artifact_named_by_entry (Demo.env_with 5 Demo.flaky) Demo.context
                  "artifacts"%string "a.txt"%string 0%nat 0%nat eq_refl)).
Defined.

(** ** The order of the schedule *)


Section ScheduleFacts.

Import Uploader.

Context {env : Env}.


End ScheduleFacts.


(** ** The pace of the renewals *)

Section LeasePaceFacts.

Import LeaseKeeper.

Context {W : Type} {env : Env W}.

Lemma renewals_pace interval tid rid tr (o : Outcome unit) :
  renewals interval tid rid tr o ->
  lease_slept tr = (Z.of_nat (requests tr) * Z.max 0 interval)%Z
  /\ List.length tr = (2 * requests tr)%nat
  /\ (o <> Pending -> requests tr = S (List.length (renewed tr)))
  /\ (forall pre q t r reply post,
        tr = (pre ++ EvReclaimTask q t r reply :: post)%list ->
        exists pre', pre = (pre' ++ [EvSleep interval])%list).
Proof.
  assert (Two : forall (x y : Event) pre e post tl,
            x :: y :: tl = (pre ++ e :: post)%list ->
            (pre = [] /\ e = x) \/ (pre = [x] /\ e = y)
            \/ exists pre2, pre = x :: y :: pre2 /\ tl = (pre2 ++ e :: post)%list).
  { intros x y pre e post tl H.
    destruct pre as [|a [|b pre2]]; cbn in H; injection H as; subst; eauto. }
  induction 1 as [q|q e N|q r tr o R IH|].
  - split; [|split; [|split]]; try (cbn; lia).
    { unfold lease_slept, requests. cbn [fold_right filter List.length]. lia. }
    intros pre q' t r reply post H.
    apply Two in H. destruct H as [[_ H]|[[-> _]|(pre2 & _ & H)]].
    + discriminate H.
    + exists []. reflexivity.
    + destruct pre2; discriminate H.
  - split; [|split; [|split]]; try (cbn; lia).
    { unfold lease_slept, requests. cbn [fold_right filter List.length]. lia. }
    intros pre q' t r reply post H.
    apply Two in H. destruct H as [[_ H]|[[-> _]|(pre2 & _ & H)]].
    + discriminate H.
    + exists []. reflexivity.
    + destruct pre2; discriminate H.
  - destruct IH as (Sl & Len & Req & Pre).
    split; [|split; [|split]].
    + cbn [lease_slept fold_right]. fold (lease_slept tr). rewrite Sl.
      cbn [requests filter List.length]. fold (requests tr). lia.
    + cbn [requests filter List.length]. fold (requests tr).
      cbn [List.length] in *. lia.
    + intros NP. cbn. fold (requests tr) (renewed tr). rewrite (Req NP). reflexivity.
    + intros pre q' t r' reply post H.
      apply Two in H. destruct H as [[_ H]|[[-> _]|(pre2 & -> & H)]].
      * discriminate H.
      * exists []. reflexivity.
      * destruct (Pre _ _ _ _ _ _ H) as (pre' & ->).
        exists (EvSleep interval :: EvReclaimTask q tid rid (inr r) :: pre').
        reflexivity.
  - split; [|split; [|split]]; try (cbn; lia).
    + intros NP. congruence.
    + intros pre q' t r reply post H. destruct pre; discriminate H.
Qed.

(** X10: the heartbeat never asks the queue without having slept the full
    [reclaim_interval] immediately before, the first request included: a
    log of [reclaim_task] has two events for each request, the time slept
    is the number of requests times the interval (a negative interval
    sleeps for no time), and a loop that has come to an end has made
    exactly one request more than it has had renewals granted. *)
Theorem reclaim_task_paces_requests fuel (s : St W Event) :
  exists tr o s',
    reclaim_task fuel s = (o, s') /\
    log s' = (log s ++ tr)%list /\
    lease_slept tr
    = (Z.of_nat (requests tr) * Z.max 0 (reclaim_interval (Context.config (ctx s))))%Z /\
    List.length tr = (2 * requests tr)%nat /\
    (o <> Pending -> requests tr = S (List.length (renewed tr))) /\
    (forall pre q t r reply post,
       tr = (pre ++ EvReclaimTask q t r reply :: post)%list ->
       exists pre',
         pre = (pre' ++ [EvSleep (reclaim_interval (Context.config (ctx s)))])%list).
Proof.
  destruct (reclaim_task_run fuel s) as (tr & o & s' & E & L & R & _).
  destruct (renewals_pace R) as (Sl & Len & Req & Pre).
  exists tr, o, s'. repeat split; auto.
Qed.

End LeasePaceFacts.
